(** * dynArray: the separator-delimited string container of
    "Lesson5 Task/Lesson5 Task.cpp"

    The class wraps a [std::vector<std::string>]; it is built empty or by
    splitting a string with [std::getline] on a separator character, and
    offers [add], [print], [resize], [size] and a bounds-checked
    [operator[]].

    Conventions of the embedding.
    - [std::string] is [string]; [char] is [ascii].
    - [std::vector<std::string>] is [list string]; [size_t] is [nat]: the
      class performs no arithmetic on sizes or indices, so no wrap-around
      is involved, and an index is never negative, as in the source.
    - A call has an [outcome]: it returns normally, throws, has undefined
      behaviour (the unchecked subscript of a vector), or the model of a
      loop ran out of fuel.
    - [std::vector::resize] throws [std::length_error] when it is asked to
      grow past [max_size()]; the caller of [dynArray::resize] chooses the
      new size freely, so this path is modelled. [max_size()] is a quantity
      of the implementation of the standard library: the development is
      parametric in it ([Implementation]), and [libstdcxx_lp64] gives its
      value for libstdc++ on a 64-bit target.
    - Memory is not bounded otherwise: [std::bad_alloc] is outside the
      model, and so is the same [max_size()] check inside [push_back], which
      only a vector that already holds [max_size()] strings reaches.
    - Line 31 of the source holds the incomplete expression [data.] inside
      the loop of the splitting constructor; it names no member and has no
      effect, the loop body is the [push_back] of line 30. *)

From Stdlib Require Import Ascii.
From stdpp Require Import base list strings.

Local Open Scope nat_scope.

(** ** Outcomes of a call *)

Inductive exception : Type :=
  | out_of_range
  | length_error.

Inductive outcome (A : Type) : Type :=
  | Normal (a : A)
  | Throw (e : exception)
  | Undefined
  | OutOfFuel.

Arguments Normal {A} a.
Arguments Throw {A} e.
Arguments Undefined {A}.
Arguments OutOfFuel {A}.

#[global] Instance outcome_ret : MRet outcome := @Normal.

#[global] Instance outcome_bind : MBind outcome := fun A B k m =>
  match m with
  | Normal a => k a
  | Throw e => Throw e
  | Undefined => Undefined
  | OutOfFuel => OutOfFuel
  end.


(** ** std::vector<std::string> *)

(** [max_size()], the largest number of elements the implementation lets a
    [std::vector<std::string>] hold. *)
Class Implementation : Type := { max_size : N }.

(** libstdc++ on a 64-bit target: [PTRDIFF_MAX / sizeof(std::string)], with
    [sizeof(std::string) = 32]. The limit is a binary number, so that the
    check in [resize] evaluates. *)
Definition libstdcxx_lp64 : Implementation := {| max_size := 2 ^ 58 - 1 |}%N.


Module Vector.

Definition size (v : list string) : nat := length v.

Definition push_back (v : list string) (x : string) : list string := v ++ [x].

(** [resize]: appends value-initialised (empty) strings when growing,
    after the check that the [n - size()] new elements fit below
    [max_size()] ([std::length_error] otherwise); erases at the end when
    shrinking. *)
Definition resize `{Implementation} (v : list string) (n : nat)
  : outcome (list string) :=
  if decide (size v < n) then
    if decide (max_size - N.of_nat (size v) < N.of_nat (n - size v))%N
    then Throw length_error
    else Normal (v ++ replicate (n - size v) EmptyString)
  else if decide (n < size v) then Normal (take n v)
  else Normal v.

(** The unchecked subscript: undefined out of range. *)
Definition subscript (v : list string) (n : nat) : outcome string :=
  match v !! n with
  | Some x => Normal x
  | None => Undefined
  end.

(** [at]: range check, then the subscript. *)
Definition at_ (v : list string) (n : nat) : outcome string :=
  if decide (size v <= n) then Throw out_of_range else subscript v n.

End Vector.

(** ** std::istringstream and std::getline *)

Module IStream.

Record istringstream : Type := mk_stream {
  buf : string;        (* the characters not yet read *)
  eofbit : bool;
  failbit : bool
}.

Definition open (str : string) : istringstream :=
  {| buf := str; eofbit := false; failbit := false |}.

Definition good (ss : istringstream) : bool :=
  negb (eofbit ss) && negb (failbit ss).

Definition fail (ss : istringstream) : bool := failbit ss.

(** [explicit operator bool]: the condition of [while (std::getline(..))]. *)
Definition to_bool (ss : istringstream) : bool := negb (fail ss).

Record extraction : Type := mk_extraction {
  taken : string;      (* the characters appended to the token *)
  rest : string;       (* what stays in the stream *)
  hit_eof : bool;      (* the scan stopped at end of input *)
  count : nat          (* characters extracted, the delimiter included *)
}.

(** The extraction loop of [getline]: end of input is tested first, then
    the delimiter, which is extracted but not appended. (Its third exit,
    a token of [max_size()] characters, cannot be taken: the token is never
    longer than the string the stream was opened on.) *)
Fixpoint extract (delim : ascii) (s : string) : extraction :=
  match s with
  | EmptyString =>
      {| taken := EmptyString; rest := EmptyString; hit_eof := true; count := 0 |}
  | String c s' =>
      if Ascii.eqb c delim then
        {| taken := EmptyString; rest := s'; hit_eof := false; count := 1 |}
      else
        let e := extract delim s' in
        {| taken := String c (taken e); rest := rest e;
           hit_eof := hit_eof e; count := S (count e) |}
  end.

(** [std::getline(ss, token, delim)]: the sentry fails on a stream that is
    not good (failbit is set, the token is left alone); otherwise the
    token is erased and filled, eofbit is set when the input ran out, and
    failbit when no character was extracted. *)
Definition getline (ss : istringstream) (token : string) (delim : ascii)
  : istringstream * string :=
  if good ss then
    let e := extract delim (buf ss) in
    ({| buf := rest e; eofbit := hit_eof e; failbit := Nat.eqb (count e) 0 |},
     taken e)
  else
    ({| buf := buf ss; eofbit := eofbit ss; failbit := true |}, token).

End IStream.

(** ** std::cout *)

Module OStream.

(** The stream is the text written to it so far. *)
Definition put (out : string) (s : string) : string := out +:+ s.

Definition newline : string := String "010"%char EmptyString.

(** [std::endl]: a line terminator (and a flush, which has no content). *)
Definition endl (out : string) : string := put out newline.

End OStream.

(** ** class dynArray *)

Record dynArray : Type := mk_dynArray { data : list string }.

(** [dynArray() {}] *)
Definition dynArray_default : outcome dynArray :=
  Normal {| data := [] |}.

(** The loop [while (std::getline(ss, token, separator)) data.push_back(token);]
    one iteration per unit of fuel. *)
Fixpoint split_loop (fuel : nat) (ss : IStream.istringstream) (token : string)
    (separator : ascii) (data : list string) : outcome (list string) :=
  match fuel with
  | O => OutOfFuel
  | S fuel' =>
      let '(ss', token') := IStream.getline ss token separator in
      if IStream.to_bool ss' then
        split_loop fuel' ss' token' separator (Vector.push_back data token')
      else Normal data
  end.

Definition dynArray_split_fuel (fuel : nat) (str : string) (separator : ascii)
  : outcome dynArray :=
  data' ← split_loop fuel (IStream.open str) EmptyString separator [];
  Normal {| data := data' |}.

(** [dynArray(const std::string& str, char separator)]; the loop is given one
    iteration more than [str] has characters: [split_fuel_enough] below shows
    that no run needs more, [split_loop_more_fuel] that more changes
    nothing. *)
Definition dynArray_split (str : string) (separator : ascii) : outcome dynArray :=
  dynArray_split_fuel (S (String.length str)) str separator.

(** [void add(const std::string& element)] *)
Definition add (d : dynArray) (element : string) : outcome dynArray :=
  Normal {| data := Vector.push_back (data d) element |}.

(** [void print() const]: every element is followed by a space, then
    [std::endl]. The result is the new state of [std::cout]. *)
Definition print (d : dynArray) (cout : string) : outcome string :=
  Normal (OStream.endl
            (fold_left (fun out elem => OStream.put (OStream.put out elem) " ")
                       (data d) cout)).

(** [void resize(size_t newSize)] *)
Definition resize `{Implementation} (d : dynArray) (newSize : nat)
  : outcome dynArray :=
  data' ← Vector.resize (data d) newSize;
  Normal {| data := data' |}.

(** [size_t size() const] *)
Definition size (d : dynArray) : outcome nat :=
  Normal (Vector.size (data d)).

(** [operator[]], read: both overloads return [data.at(index)]. *)
Definition operator_index (d : dynArray) (index : nat) : outcome string :=
  Vector.at_ (data d) index.

(** [d[index] = value] through the overload that returns [std::string&]: the
    reference obtained from [data.at(index)] designates slot [index] of the
    vector, and the assignment stores into it. *)
Definition operator_index_assign (d : dynArray) (index : nat) (value : string)
  : outcome dynArray :=
  _ ← Vector.at_ (data d) index;
  Normal {| data := <[index := value]> (data d) |}.

(** [main]: the text it leaves on [std::cout] (its return value is 0). *)
Definition main `{Implementation} (cout : string) : outcome string :=
  d ← dynArray_split "one two three" " "%char;
  cout ← print d cout;
  d2 ← dynArray_split "one,two,and three" ","%char;
  cout ← print d2 cout;
  d ← add d "four";
  cout ← print d cout;
  d ← resize d 2;
  cout ← print d cout;
  elem ← operator_index d 1;
  Normal (OStream.endl (OStream.put (OStream.put cout "Element at index 1: ") elem)).

(** The container of the example run after [resize(2)]. *)
Definition one_two : dynArray := {| data := ["one"; "two"] |}.

(** ** Vocabulary of the specification *)

(** Number of occurrences of a character in a string. *)
Fixpoint occurrences (sep : ascii) (s : string) : nat :=
  match s with
  | EmptyString => 0
  | String c s' => (if Ascii.eqb c sep then 1 else 0) + occurrences sep s'
  end.

Fixpoint last_char (s : string) : option ascii :=
  match s with
  | EmptyString => None
  | String c s' =>
      match s' with
      | EmptyString => Some c
      | String _ _ => last_char s'
      end
  end.

(** The text is empty or its last character is the separator. *)
Definition closed_by (sep : ascii) (s : string) : bool :=
  match last_char s with
  | None => true
  | Some c => Ascii.eqb c sep
  end.

(** The pieces of a string between separators: the split that gives one
    piece more than there are separators. *)
Fixpoint pieces (sep : ascii) (s : string) : list string :=
  match s with
  | EmptyString => [EmptyString]
  | String c s' =>
      if Ascii.eqb c sep then EmptyString :: pieces sep s'
      else match pieces sep s' with
           | t :: ts => String c t :: ts
           | [] => [String c EmptyString]
           end
  end.

(** A list of pieces without its last piece when that one is empty. *)
Fixpoint drop_trailing_empty (l : list string) : list string :=
  match l with
  | [] => []
  | t :: l' =>
      match l' with
      | [] => match t with EmptyString => [] | String _ _ => [t] end
      | _ :: _ => t :: drop_trailing_empty l'
      end
  end.

(** The text put on the stream for a list of tokens: each one followed by a
    single space. *)
Fixpoint spaced (l : list string) : string :=
  match l with
  | [] => EmptyString
  | t :: l' => t +:+ " " +:+ spaced l'
  end.

(** The tokens joined by single spaces, nothing after the last one. *)
Fixpoint joined (l : list string) : string :=
  match l with
  | [] => EmptyString
  | t :: l' =>
      match l' with
      | [] => t
      | _ :: _ => t +:+ " " +:+ joined l'
      end
  end.

(** The tokens written one after the other, each one followed by the
    separator. *)
Fixpoint terminated (sep : ascii) (l : list string) : string :=
  match l with
  | [] => EmptyString
  | t :: l' => (t +:+ String sep EmptyString) +:+ terminated sep l'
  end.

(** The number of characters of all the tokens together. *)
Fixpoint total_length (l : list string) : nat :=
  match l with
  | [] => 0
  | t :: l' => String.length t + total_length l'
  end.

(** The contents a [resize] to [n] leaves when it returns: the first [n]
    elements, and empty strings up to [n]. *)
Definition resized (v : list string) (n : nat) : list string :=
  take n v ++ replicate (n - length v) "".


(** ** Strings *)

Lemma str_app_cons (c : ascii) (s t : string) :
  String c s +:+ t = String c (s +:+ t).
Proof. reflexivity. Qed.

Lemma str_app_nil_r (s : string) : s +:+ "" = s.
Proof. induction s as [|c s IH]; [reflexivity|]. by rewrite str_app_cons, IH. Qed.

Lemma str_app_assoc (s t u : string) : (s +:+ t) +:+ u = s +:+ (t +:+ u).
Proof.
  induction s as [|c s IH]; [reflexivity|].
  by rewrite !str_app_cons, IH.
Qed.

Lemma last_char_snoc (s : string) (c : ascii) :
  last_char (s +:+ String c "") = Some c.
Proof.
  induction s as [|a s IH]; [reflexivity|].
  rewrite str_app_cons. simpl. rewrite IH.
  destruct s; reflexivity.
Qed.

(** A string with a last character is a prefix followed by it. *)
Lemma last_char_Some (s : string) (c : ascii) :
  last_char s = Some c -> exists p, s = p +:+ String c "".
Proof.
  induction s as [|a s IH]; [discriminate|].
  simpl. destruct s as [|b s].
  - intros [= ->]. by exists "".
  - intros H. destruct (IH H) as [p Hp]. exists (String a p).
    by rewrite str_app_cons, <- Hp.
Qed.

(** ** getline and the standard split *)

Section Split.

Variable sep : ascii.

Lemma pieces_not_nil (s : string) : pieces sep s <> [].
Proof.
  destruct s as [|c s]; simpl; [done|].
  destruct (Ascii.eqb c sep); [done|].
  destruct (pieces sep s); done.
Qed.

Lemma extract_count (s : string) :
  IStream.count (IStream.extract sep s) = 0 <-> s = "".
Proof.
  destruct s as [|c s]; simpl; [done|].
  destruct (Ascii.eqb c sep); simpl; split; done.
Qed.

Lemma extract_rest_shorter (s : string) :
  IStream.hit_eof (IStream.extract sep s) = false ->
  String.length (IStream.rest (IStream.extract sep s)) < String.length s.
Proof.
  induction s as [|c s IH]; simpl; [done|].
  destruct (Ascii.eqb c sep); simpl; [lia|].
  intros H. specialize (IH H). lia.
Qed.

(** One call of the extraction loop takes the first piece. *)
Lemma extract_pieces (s : string) :
  pieces sep s =
    if IStream.hit_eof (IStream.extract sep s)
    then [IStream.taken (IStream.extract sep s)]
    else IStream.taken (IStream.extract sep s)
           :: pieces sep (IStream.rest (IStream.extract sep s)).
Proof.
  induction s as [|c s IH]; simpl; [done|].
  destruct (Ascii.eqb c sep); simpl; [done|].
  rewrite IH. by destruct (IStream.hit_eof (IStream.extract sep s)).
Qed.

Lemma extract_taken_not_empty (s : string) :
  s <> "" ->
  IStream.hit_eof (IStream.extract sep s) = true ->
  IStream.taken (IStream.extract sep s) <> "".
Proof.
  destruct s as [|c s]; simpl; [done|].
  destruct (Ascii.eqb c sep); simpl; done.
Qed.

(** [getline] on a fresh stream: the sentry succeeds. *)
Lemma getline_open (s token : string) :
  IStream.getline (IStream.open s) token sep
  = ({| IStream.buf := IStream.rest (IStream.extract sep s);
        IStream.eofbit := IStream.hit_eof (IStream.extract sep s);
        IStream.failbit := Nat.eqb (IStream.count (IStream.extract sep s)) 0 |},
     IStream.taken (IStream.extract sep s)).
Proof. reflexivity. Qed.

(** On a stream that is not good the sentry of [getline] fails and the
    loop stops at once. *)
Lemma split_loop_not_good fuel ss token data :
  IStream.good ss = false ->
  split_loop (S fuel) ss token sep data = Normal data.
Proof.
  intros Hg. simpl. unfold IStream.getline. by rewrite Hg.
Qed.

(** A run that ends within its fuel ends the same way with more. *)
Lemma split_loop_more_fuel fuel fuel' ss token data r :
  fuel <= fuel' ->
  split_loop fuel ss token sep data = Normal r ->
  split_loop fuel' ss token sep data = Normal r.
Proof.
  revert fuel' ss token data.
  induction fuel as [|fuel IH]; intros fuel' ss token data Hle; [done|].
  destruct fuel' as [|fuel']; [lia|].
  cbn [split_loop].
  destruct (IStream.getline ss token sep) as [ss' token'].
  destruct (IStream.to_bool ss'); [|done].
  apply IH. lia.
Qed.

(** The loop on a fresh stream over [s]: with more iterations than [s] has
    characters it ends, having pushed the pieces of [s] short of a
    trailing empty one. *)
Lemma split_loop_pieces fuel s token data :
  String.length s < fuel ->
  split_loop fuel (IStream.open s) token sep data
  = Normal (data ++ drop_trailing_empty (pieces sep s)).
Proof.
  revert s token data.
  induction fuel as [|fuel IH]; intros s token data Hlen; [lia|].
  destruct (decide (s = "")) as [->|Hne].
  { simpl. by rewrite app_nil_r. }
  cbn [split_loop]. rewrite getline_open.
  unfold IStream.to_bool, IStream.fail. cbn [IStream.failbit].
  destruct (IStream.count (IStream.extract sep s)) as [|n] eqn:Hc.
  { apply extract_count in Hc. done. }
  cbn [Nat.eqb negb].
  rewrite (extract_pieces s).
  destruct (IStream.hit_eof (IStream.extract sep s)) eqn:Heof.
  - destruct fuel as [|fuel].
    { destruct s; simpl in *; [done|lia]. }
    rewrite split_loop_not_good by done.
    pose proof (extract_taken_not_empty s Hne Heof) as Ht.
    unfold Vector.push_back.
    destruct (IStream.taken (IStream.extract sep s)); [done|reflexivity].
  - pose proof (extract_rest_shorter s Heof) as Hr.
    change (IStream.mk_stream (IStream.rest (IStream.extract sep s)) false false)
      with (IStream.open (IStream.rest (IStream.extract sep s))).
    rewrite IH by lia.
    unfold Vector.push_back. rewrite <- app_assoc. f_equal.
    cbn [drop_trailing_empty app].
    destruct (pieces sep (IStream.rest (IStream.extract sep s))) eqn:Hp; [|done].
    by apply pieces_not_nil in Hp.
Qed.

(** The tokens the constructor stores. *)
Lemma dynArray_split_pieces (str : string) :
  dynArray_split str sep
  = Normal {| data := drop_trailing_empty (pieces sep str) |}.
Proof.
  unfold dynArray_split, dynArray_split_fuel.
  rewrite split_loop_pieces by lia. reflexivity.
Qed.

(** No run of the loop needs more than [length str + 1] iterations, and
    more fuel changes nothing. *)
Lemma split_fuel_enough (fuel : nat) (str : string) :
  String.length str < fuel ->
  dynArray_split_fuel fuel str sep = dynArray_split str sep.
Proof.
  intros H. unfold dynArray_split, dynArray_split_fuel.
  rewrite !split_loop_pieces by lia. reflexivity.
Qed.

(** *** The pieces of a string *)

Lemma pieces_length (s : string) :
  length (pieces sep s) = occurrences sep s + 1.
Proof.
  induction s as [|c s IH]; simpl; [done|].
  destruct (Ascii.eqb c sep); simpl; [by rewrite IH|].
  destruct (pieces sep s) eqn:Hp; [by apply pieces_not_nil in Hp|].
  simpl in *. lia.
Qed.

Lemma pieces_no_sep (s : string) :
  occurrences sep s = 0 -> pieces sep s = [s].
Proof.
  induction s as [|c s IH]; simpl; [done|].
  destruct (Ascii.eqb c sep); simpl; [done|].
  intros H. by rewrite IH.
Qed.

Lemma pieces_snoc_sep (p : string) :
  pieces sep (p +:+ String sep "") = pieces sep p ++ [""].
Proof.
  induction p as [|c p IH].
  - simpl. by rewrite Ascii.eqb_refl.
  - rewrite str_app_cons. simpl.
    destruct (Ascii.eqb c sep); [by rewrite IH|].
    rewrite IH.
    destruct (pieces sep p) eqn:Hp; [by apply pieces_not_nil in Hp|done].
Qed.

(** The first piece of a non-empty string is empty only before a
    separator, so a lone piece of a non-empty string is not empty. *)
Lemma pieces_single_not_empty (s t : string) :
  s <> "" -> pieces sep s = [t] -> t <> "".
Proof.
  destruct s as [|c s]; [done|]. intros _. simpl.
  destruct (Ascii.eqb c sep).
  - intros [= <- Hp]. by apply pieces_not_nil in Hp.
  - destruct (pieces sep s); intros [= <-]; done.
Qed.

Lemma closed_by_cons (c b : ascii) (s : string) :
  closed_by sep (String c (String b s)) = closed_by sep (String b s).
Proof. reflexivity. Qed.

(** The last piece is empty exactly for a text that is empty or ends
    with the separator. *)
Lemma last_pieces (s : string) :
  last (pieces sep s) = Some "" <-> closed_by sep s = true.
Proof.
  induction s as [|c s IH]; [done|].
  destruct s as [|b s].
  - unfold closed_by. simpl.
    destruct (Ascii.eqb c sep); simpl; split; done.
  - rewrite closed_by_cons, <- IH. clear IH.
    assert (Hr : String b s <> "") by done.
    revert Hr. generalize (String b s). intros r Hr. simpl.
    pose proof (pieces_not_nil r) as Hnil.
    destruct (Ascii.eqb c sep).
    + destruct (pieces sep r); done.
    + destruct (pieces sep r) as [|t [|t' ts]] eqn:Hp; [done| |done].
      apply pieces_single_not_empty in Hp; [|done].
      simpl. split; intros [= ?]; done.
Qed.

Lemma drop_trailing_empty_cons (t t' : string) (l : list string) :
  drop_trailing_empty (t :: t' :: l) = t :: drop_trailing_empty (t' :: l).
Proof. reflexivity. Qed.

Lemma drop_trailing_empty_snoc (l : list string) :
  drop_trailing_empty (l ++ [""]) = l.
Proof.
  induction l as [|t l IH]; [done|].
  destruct l as [|t' l]; [done|].
  change ((t :: t' :: l) ++ [""]) with (t :: t' :: (l ++ [""])).
  rewrite drop_trailing_empty_cons. by rewrite <- IH.
Qed.

Lemma drop_trailing_empty_open (l : list string) :
  last l <> Some "" -> drop_trailing_empty l = l.
Proof.
  induction l as [|t l IH]; [done|].
  destruct l as [|t' l].
  - simpl. destruct t; done.
  - intros H. rewrite drop_trailing_empty_cons. by rewrite IH.
Qed.

Lemma drop_trailing_empty_closed (l : list string) :
  last l = Some "" -> l = drop_trailing_empty l ++ [""].
Proof.
  induction l as [|t l IH]; [done|].
  destruct l as [|t' l].
  - simpl. by intros [= ->].
  - intros H. rewrite drop_trailing_empty_cons. cbn [app]. by rewrite <- IH.
Qed.

Lemma drop_trailing_empty_length (l : list string) :
  l <> [] ->
  length (drop_trailing_empty l)
  = length l - (if decide (last l = Some "") then 1 else 0).
Proof.
  intros Hl. destruct (decide (last l = Some "")) as [H|H].
  - rewrite (drop_trailing_empty_closed l H) at 2.
    rewrite length_app. simpl. lia.
  - rewrite drop_trailing_empty_open by done. lia.
Qed.

End Split.

(** ** The vector and the output stream *)

Lemma at_in_range (v : list string) (i : nat) (x : string) :
  v !! i = Some x -> Vector.at_ v i = Normal x.
Proof.
  intros H. unfold Vector.at_, Vector.size, Vector.subscript.
  apply lookup_lt_Some in H as Hlt.
  case_decide; [lia|]. by rewrite H.
Qed.

Lemma at_out_of_range (v : list string) (i : nat) :
  length v <= i -> Vector.at_ v i = Throw out_of_range.
Proof.
  intros H. unfold Vector.at_, Vector.size. case_decide; [done|lia].
Qed.

(** [at] is decided by the lookup alone. *)
Lemma at_lookup (v : list string) (i : nat) :
  Vector.at_ v i
  = match v !! i with Some x => Normal x | None => Throw out_of_range end.
Proof.
  destruct (v !! i) as [x|] eqn:H.
  - by apply at_in_range.
  - apply at_out_of_range. by apply lookup_ge_None.
Qed.

Lemma resized_length (v : list string) (n : nat) :
  length (resized v n) = n.
Proof.
  unfold resized. rewrite length_app, length_take, length_replicate. lia.
Qed.


(** [resize] returns when it shrinks, and when it grows to at most
    [max_size()]. *)
Lemma resize_returns `{Implementation} (v : list string) (n : nat) :
  (N.of_nat n <= max_size)%N \/ n <= length v ->
  Vector.resize v n = Normal (resized v n).
Proof.
  intros Hn. unfold Vector.resize, Vector.size, resized.
  repeat case_decide; try lia; f_equal.
  - by rewrite take_ge by lia.
  - replace (n - length v) with 0 by lia. simpl. by rewrite app_nil_r.
  - replace (n - length v) with 0 by lia. simpl.
    rewrite app_nil_r. by rewrite take_ge by lia.
Qed.




Lemma print_loop_spaced (l : list string) (cout : string) :
  fold_left (fun out elem => OStream.put (OStream.put out elem) " ") l cout
  = cout +:+ spaced l.
Proof.
  revert cout. induction l as [|t l IH]; intros cout; simpl.
  - by rewrite str_app_nil_r.
  - rewrite IH. unfold OStream.put. by rewrite !str_app_assoc.
Qed.

(** Writing every token with a space after it is writing them joined by
    spaces, and one more space. *)
Lemma spaced_joined (l : list string) :
  spaced l = match l with [] => "" | _ :: _ => joined l +:+ " " end.
Proof.
  induction l as [|t l IH]; [done|].
  cbn [spaced]. rewrite IH. destruct l as [|t' l]; [done|].
  cbn [joined]. by rewrite !str_app_assoc.
Qed.


(** ** Properties of the class *)

(** C1. Indexed access is checked: with [n] the length, [d[i]] for [i < n]
    returns the token stored at position [i]; for [n <= i] both forms of the
    access, the read and the assignment through the returned reference,
    throw [out_of_range]; the unchecked subscript underneath is never
    reached out of range, so the access is never undefined. *)
Theorem operator_index_checked (d : dynArray) (i n : nat) :
  size d = Normal n ->
  (i < n ->
     exists tok, data d !! i = Some tok /\ operator_index d i = Normal tok) /\
  (n <= i ->
     operator_index d i = Throw out_of_range /\
     forall value, operator_index_assign d i value = Throw out_of_range) /\
  operator_index d i <> Undefined.
Proof.
  intros [= <-]. unfold operator_index, operator_index_assign, Vector.size.
  split; [|split].
  - intros Hi. destruct (lookup_lt_is_Some_2 (data d) i Hi) as [tok Htok].
    exists tok. split; [done|]. by apply at_in_range.
  - intros Hi. rewrite at_out_of_range by done. done.
  - rewrite at_lookup. by destruct (data d !! i).
Qed.

Lemma operator_index_checked_witness :
  operator_index one_two 1 = Normal "two" /\
  operator_index one_two 5 = Throw out_of_range.
Proof.
  pose proof (operator_index_checked one_two 1 2 eq_refl) as (Hin & _ & _).
  pose proof (operator_index_checked one_two 5 2 eq_refl) as (_ & Hout & _).
  split.
  - destruct Hin as (tok & Hl & Ht); [lia|].
    injection Hl as <-. exact Ht.
  - apply Hout. lia.
Defined.




(** C4. [add(element)] makes the container one longer, with [element] at
    the new last position and every earlier position unchanged. *)
Theorem add_appends (d : dynArray) (element : string) :
  exists d' len,
    size d = Normal len /\
    add d element = Normal d' /\
    size d' = Normal (len + 1) /\
    operator_index d' len = Normal element /\
    (forall i, i < len -> operator_index d' i = operator_index d i).
Proof.
  exists {| data := Vector.push_back (data d) element |}, (length (data d)).
  unfold size, add, operator_index, Vector.size, Vector.push_back. cbn [data].
  split; [done|]. split; [done|]. split; [|split].
  - rewrite length_app. done.
  - apply at_in_range. rewrite lookup_app_r by lia.
    by rewrite Nat.sub_diag.
  - intros i Hi. rewrite !at_lookup. by rewrite lookup_app_l.
Qed.

(** C8. An assignment through the mutable accessor at a valid index
    succeeds, keeps the length, stores the value at that position and leaves
    every other position as it was. *)
Theorem operator_index_assign_frame (d : dynArray) (i n : nat) (value : string) :
  size d = Normal n ->
  i < n ->
  exists d',
    operator_index_assign d i value = Normal d' /\
    size d' = Normal n /\
    operator_index d' i = Normal value /\
    (forall j, j <> i -> operator_index d' j = operator_index d j).
Proof.
  intros [= <-] Hi. unfold Vector.size in Hi.
  exists {| data := <[i := value]> (data d) |}.
  unfold operator_index_assign, size, operator_index, Vector.size. cbn [data].
  destruct (lookup_lt_is_Some_2 (data d) i Hi) as [tok Htok].
  rewrite (at_in_range _ _ _ Htok).
  split; [done|]. split; [by rewrite length_insert|]. split.
  - apply at_in_range. by apply list_lookup_insert_eq.
  - intros j Hj. rewrite !at_lookup. by rewrite list_lookup_insert_ne.
Qed.

Lemma operator_index_assign_frame_witness :
  size one_two = Normal 2 /\ 1 < 2 /\
  exists d',
    operator_index_assign one_two 1 "deux" = Normal d' /\
    size d' = Normal 2 /\
    operator_index d' 1 = Normal "deux" /\
    (forall j, j <> 1 -> operator_index d' j = operator_index one_two j).
Proof.
  split; [reflexivity|]. split; [lia|].
  apply (operator_index_assign_frame one_two 1 2 "deux"); [reflexivity|lia].
Defined.

(** C2, as the code has it. [print] writes every token followed by one
    space, the last one too, and then the line terminator: after the text
    already on the stream come the tokens joined by single spaces, a space,
    and a newline (only the newline for an empty container). For the
    container split from "one two three" the output is "one two three "
    and a newline. *)
Theorem print_spaced (d : dynArray) (cout : string) :
  print d cout
  = Normal (cout
            +:+ match data d with
                | [] => ""
                | _ :: _ => joined (data d) +:+ " "
                end
            +:+ OStream.newline)
  /\ (d3 ← dynArray_split "one two three" " "%char; print d3 "")
     = Normal ("one two three " +:+ OStream.newline).
Proof.
  split; [|reflexivity].
  unfold print, OStream.endl, OStream.put.
  rewrite print_loop_spaced, spaced_joined. by rewrite str_app_assoc.
Qed.

(** C2 as stated fails: the output for "one two three" is not
    "one two three" directly followed by the newline. *)
Lemma print_no_trailing_space_refuted :
  (d3 ← dynArray_split "one two three" " "%char; print d3 "")
  <> Normal ("one two three" +:+ OStream.newline).
Proof. vm_compute. discriminate. Qed.

(** C5, as the code has it. A non-empty text without the separator is
    split into exactly one token, the text itself. *)
Theorem split_no_separator (text : string) (sep : ascii) :
  occurrences sep text = 0 ->
  text <> "" ->
  exists d,
    dynArray_split text sep = Normal d /\
    size d = Normal 1 /\
    operator_index d 0 = Normal text.
Proof.
  intros Hocc Hne. exists {| data := [text] |}.
  rewrite dynArray_split_pieces, pieces_no_sep by done.
  split; [|done]. destruct text; done.
Qed.

Lemma split_no_separator_witness :
  occurrences ","%char "and three" = 0 /\ "and three" <> "" /\
  exists d,
    dynArray_split "and three" ","%char = Normal d /\
    size d = Normal 1 /\
    operator_index d 0 = Normal "and three".
Proof.
  split; [reflexivity|]. split; [discriminate|].
  apply (split_no_separator "and three" ","%char); [reflexivity|discriminate].
Defined.

(** C5 as stated fails on the empty string, which has no occurrence of
    any separator: it is split into no token at all, not into one. *)
Lemma split_no_separator_empty_refuted :
  occurrences ","%char "" = 0 /\
  ~ exists d,
      dynArray_split "" ","%char = Normal d /\
      size d = Normal 1 /\
      operator_index d 0 = Normal "".
Proof.
  split; [reflexivity|].
  intros (d & Hd & Hsize & _). vm_compute in Hd.
  injection Hd as <-. discriminate Hsize.
Qed.

(** C6, as the code has it. The number of tokens is the number of
    separators plus one for a text that is not empty and does not end with
    the separator; for the empty text and for a text that ends with the
    separator it is the number of separators. *)
Theorem split_token_count (text : string) (sep : ascii) :
  exists d,
    dynArray_split text sep = Normal d /\
    size d = Normal (if closed_by sep text
                     then occurrences sep text
                     else occurrences sep text + 1).
Proof.
  exists {| data := drop_trailing_empty (pieces sep text) |}.
  split; [apply dynArray_split_pieces|].
  unfold size, Vector.size. cbn [data]. f_equal.
  rewrite drop_trailing_empty_length by apply pieces_not_nil.
  rewrite pieces_length.
  pose proof (last_pieces sep text) as Hlast.
  destruct (closed_by sep text); case_decide as Hl; try lia.
  - destruct Hlast as [_ Hc]. by specialize (Hc eq_refl).
  - destruct Hlast as [Hc _]. by specialize (Hc Hl).
Qed.

(** C6 as stated fails for a text that ends with the separator, and for
    the empty text. *)
Lemma split_token_count_refuted :
  (~ exists d,
       dynArray_split "a," ","%char = Normal d /\
       size d = Normal (occurrences ","%char "a," + 1)) /\
  (~ exists d,
       dynArray_split "" ","%char = Normal d /\
       size d = Normal (occurrences ","%char "" + 1)).
Proof.
  split; intros (d & Hd & Hsize); vm_compute in Hd;
    injection Hd as <-; discriminate Hsize.
Qed.




(** C9. Splitting the empty string gives a container of length 0. *)
Theorem split_empty_text (sep : ascii) :
  exists d, dynArray_split "" sep = Normal d /\ size d = Normal 0.
Proof. exists {| data := [] |}. split; reflexivity. Qed.

(** C10, as the code has it. When the text before a final separator is not
    empty and does not itself end with the separator, the final separator
    adds nothing: the tokens are those of the text before it, and the last
    of them is not empty. *)
Theorem split_trailing_separator (p : string) (sep : ascii) :
  closed_by sep p = false ->
  exists d,
    dynArray_split (p +:+ String sep "") sep = Normal d /\
    dynArray_split p sep = Normal d /\
    last (data d) <> Some "".
Proof.
  intros Hopen.
  assert (Hlast : last (pieces sep p) <> Some "").
  { intros H. apply last_pieces in H. congruence. }
  exists {| data := pieces sep p |}.
  rewrite !dynArray_split_pieces, pieces_snoc_sep, drop_trailing_empty_snoc.
  rewrite drop_trailing_empty_open by done. done.
Qed.

Lemma split_trailing_separator_witness :
  closed_by ","%char "a,b" = false /\
  exists d,
    dynArray_split ("a,b" +:+ String ","%char "") ","%char = Normal d /\
    dynArray_split "a,b" ","%char = Normal d /\
    last (data d) <> Some "".
Proof.
  split; [reflexivity|].
  apply (split_trailing_separator "a,b" ","%char). reflexivity.
Defined.

(** When the text before the final separator is empty or ends with the
    separator, the final separator closes one more, empty, token. *)
Lemma split_trailing_separator_closed (p : string) (sep : ascii) :
  closed_by sep p = true ->
  exists d dp,
    dynArray_split (p +:+ String sep "") sep = Normal d /\
    dynArray_split p sep = Normal dp /\
    data d = data dp ++ [""].
Proof.
  intros Hclosed. apply last_pieces in Hclosed.
  exists {| data := pieces sep p |},
         {| data := drop_trailing_empty (pieces sep p) |}.
  rewrite !dynArray_split_pieces, pieces_snoc_sep, drop_trailing_empty_snoc.
  split; [done|]. split; [done|].
  by apply drop_trailing_empty_closed.
Qed.

(** C10 as stated fails when the text before the final separator ends with
    the separator: "a,," gives a trailing empty token, which the text before
    the final separator, "a,", does not give. *)
Lemma split_trailing_separator_refuted :
  last_char "a,," = Some ","%char /\
  dynArray_split "a,," ","%char = Normal {| data := ["a"; ""] |} /\
  dynArray_split "a," ","%char = Normal {| data := ["a"] |} /\
  dynArray_split "a,," ","%char <> dynArray_split "a," ","%char.
Proof. repeat split; try reflexivity. vm_compute. discriminate. Qed.

(** The example run of [main]. *)
Example main_output `{Implementation} :
  main ""
  = Normal ("one two three " +:+ OStream.newline
            +:+ "one two and three " +:+ OStream.newline
            +:+ "one two three four " +:+ OStream.newline
            +:+ "one two " +:+ OStream.newline
            +:+ "Element at index 1: two" +:+ OStream.newline).
Proof. reflexivity. Qed.

(** ** More on strings and pieces *)

Lemma str_app_length (s t : string) :
  String.length (s +:+ t) = String.length s + String.length t.
Proof.
  induction s as [|c s IH]; [reflexivity|].
  rewrite str_app_cons. simpl. by rewrite IH.
Qed.

(** Appending the same character on the right can be undone. *)
Lemma str_snoc_inj (s t : string) (c : ascii) :
  s +:+ String c "" = t +:+ String c "" -> s = t.
Proof.
  revert t. induction s as [|a s IH]; intros [|b t] H.
  - done.
  - rewrite str_app_cons in H. injection H as _ H. by destruct t.
  - rewrite str_app_cons in H. injection H as _ H. by destruct s.
  - rewrite !str_app_cons in H. injection H as -> H. by rewrite (IH t H).
Qed.

Lemma terminated_app (sep : ascii) (l k : list string) :
  terminated sep (l ++ k) = terminated sep l +:+ terminated sep k.
Proof.
  induction l as [|t l IH]; [done|].
  cbn [app terminated]. by rewrite IH, !str_app_assoc.
Qed.

Lemma spaced_terminated (l : list string) :
  spaced l = terminated " "%char l.
Proof.
  induction l as [|t l IH]; [done|].
  cbn [spaced terminated]. by rewrite IH, str_app_assoc.
Qed.

Lemma terminated_length (sep : ascii) (l : list string) :
  String.length (terminated sep l) = total_length l + length l.
Proof.
  induction l as [|t l IH]; [done|].
  cbn [terminated total_length length].
  rewrite !str_app_length, IH. simpl. lia.
Qed.

Section Pieces.

Variable sep : ascii.

(** The pieces, each followed by the separator, are the text followed by
    the separator. *)
Lemma pieces_terminated (s : string) :
  terminated sep (pieces sep s) = s +:+ String sep "".
Proof.
  induction s as [|c s IH]; [done|].
  simpl. destruct (Ascii.eqb c sep) eqn:Hc.
  - apply Ascii.eqb_eq in Hc as ->.
    cbn [terminated]. by rewrite IH.
  - destruct (pieces sep s) as [|t ts] eqn:Hp;
      [by apply pieces_not_nil in Hp|].
    cbn [terminated] in *. rewrite str_app_cons.
    rewrite !str_app_cons. by rewrite IH.
Qed.

Lemma pieces_no_sep_inside (s : string) :
  Forall (fun t => occurrences sep t = 0) (pieces sep s).
Proof.
  induction s as [|c s IH]; simpl.
  - by constructor.
  - destruct (Ascii.eqb c sep) eqn:Hc.
    + by constructor.
    + destruct (pieces sep s) as [|t ts]; [constructor; [|done]|].
      * simpl. by rewrite Hc.
      * apply Forall_cons in IH as [Ht Hts].
        constructor; [|done]. simpl. by rewrite Hc.
Qed.

Lemma drop_trailing_empty_Forall (P : string -> Prop) (l : list string) :
  Forall P l -> Forall P (drop_trailing_empty l).
Proof.
  induction l as [|t l IH]; [done|].
  intros [Ht Hl]%Forall_cons. destruct l as [|t' l].
  - simpl. destruct t; [constructor|by constructor].
  - rewrite drop_trailing_empty_cons. constructor; auto.
Qed.

(** The split is compositional at a separator. *)
Lemma pieces_app_sep (a b : string) :
  pieces sep (a +:+ String sep b) = pieces sep a ++ pieces sep b.
Proof.
  induction a as [|c a IH].
  - simpl. by rewrite Ascii.eqb_refl.
  - rewrite str_app_cons. simpl. rewrite IH.
    destruct (Ascii.eqb c sep); [done|].
    destruct (pieces sep a) eqn:Hp; [by apply pieces_not_nil in Hp|done].
Qed.

Lemma drop_trailing_empty_app (l k : list string) :
  k <> [] -> drop_trailing_empty (l ++ k) = l ++ drop_trailing_empty k.
Proof.
  intros Hk. induction l as [|t l IH]; [done|].
  cbn [app]. destruct (l ++ k) as [|t' lk] eqn:Hlk.
  - apply app_eq_nil in Hlk as [_ ->]. done.
  - rewrite drop_trailing_empty_cons. by rewrite IH.
Qed.

Lemma occurrences_le_length (s : string) :
  occurrences sep s <= String.length s.
Proof.
  induction s as [|c s IH]; simpl; [done|].
  destruct (Ascii.eqb c sep); lia.
Qed.

Lemma occurrences_open (s : string) :
  closed_by sep s = false -> occurrences sep s < String.length s.
Proof.
  induction s as [|c s IH]; [done|].
  destruct s as [|b s].
  - unfold closed_by. simpl. intros ->. lia.
  - rewrite closed_by_cons. intros H. specialize (IH H).
    change (occurrences sep (String c (String b s)))
      with ((if Ascii.eqb c sep then 1 else 0) + occurrences sep (String b s)).
    change (String.length (String c (String b s)))
      with (S (String.length (String b s))).
    destruct (Ascii.eqb c sep); lia.
Qed.

(** The tokens stored for a text, by cases on how the text ends. *)
Lemma tokens_open (s : string) :
  closed_by sep s = false -> drop_trailing_empty (pieces sep s) = pieces sep s.
Proof.
  intros H. apply drop_trailing_empty_open.
  intros Hl. apply last_pieces in Hl. congruence.
Qed.

Lemma tokens_closed (s : string) :
  closed_by sep s = true ->
  pieces sep s = drop_trailing_empty (pieces sep s) ++ [""].
Proof.
  intros H. apply drop_trailing_empty_closed. by apply last_pieces.
Qed.

End Pieces.

(** The loop on a fresh stream over [s] calls [getline] once more than it
    stores tokens: with that many iterations it ends, with fewer it is
    still running. *)
Lemma split_loop_exact (sep : ascii) fuel s token data :
  split_loop fuel (IStream.open s) token sep data
  = if decide (length (drop_trailing_empty (pieces sep s)) < fuel)
    then Normal (data ++ drop_trailing_empty (pieces sep s))
    else OutOfFuel.
Proof.
  revert s token data.
  induction fuel as [|fuel IH]; intros s token data.
  { case_decide; [lia|done]. }
  destruct (decide (s = "")) as [->|Hne].
  { case_decide as Hf; [|cbn [pieces drop_trailing_empty length] in Hf; lia].
    cbn [pieces drop_trailing_empty]. by rewrite app_nil_r. }
  cbn [split_loop]. rewrite getline_open.
  unfold IStream.to_bool, IStream.fail. cbn [IStream.failbit].
  destruct (IStream.count (IStream.extract sep s)) as [|n] eqn:Hc.
  { apply extract_count in Hc. done. }
  cbn [Nat.eqb negb].
  rewrite (extract_pieces sep s).
  destruct (IStream.hit_eof (IStream.extract sep s)) eqn:Heof.
  - pose proof (extract_taken_not_empty sep s Hne Heof) as Ht.
    destruct (IStream.taken (IStream.extract sep s)) as [|c t] eqn:Htk; [done|].
    cbn [drop_trailing_empty length].
    destruct fuel as [|fuel].
    + case_decide; [lia|done].
    + rewrite split_loop_not_good by done.
      case_decide; [done|lia].
  - change (IStream.mk_stream (IStream.rest (IStream.extract sep s)) false false)
      with (IStream.open (IStream.rest (IStream.extract sep s))).
    rewrite IH.
    pose proof (pieces_not_nil sep (IStream.rest (IStream.extract sep s))) as Hp.
    destruct (pieces sep (IStream.rest (IStream.extract sep s)))
      as [|t' ps] eqn:Hps; [done|].
    rewrite drop_trailing_empty_cons. cbn [length].
    unfold Vector.push_back. rewrite <- app_assoc. cbn [app].
    repeat case_decide; done || lia.
Qed.

Lemma print_output (d : dynArray) (cout : string) :
  print d cout = Normal (cout +:+ spaced (data d) +:+ OStream.newline).
Proof.
  unfold print, OStream.endl, OStream.put.
  by rewrite print_loop_spaced, str_app_assoc.
Qed.

Lemma spaced_app (l k : list string) :
  spaced (l ++ k) = spaced l +:+ spaced k.
Proof. by rewrite !spaced_terminated, terminated_app. Qed.


(** The stored tokens, each followed by the separator, against the text. *)
Lemma tokens_terminated (sep : ascii) (text : string) :
  terminated sep (drop_trailing_empty (pieces sep text))
  = if closed_by sep text then text else text +:+ String sep "".
Proof.
  destruct (closed_by sep text) eqn:Hc.
  - apply (str_snoc_inj _ _ sep).
    rewrite <- (pieces_terminated sep text).
    rewrite (tokens_closed sep text Hc) at 2.
    rewrite terminated_app. reflexivity.
  - rewrite tokens_open by done. apply pieces_terminated.
Qed.

(** ** Further properties of the class *)

(** X1. No token stored by the splitting constructor contains the
    separator. *)
Theorem split_tokens_no_separator (text : string) (sep : ascii) :
  exists d,
    dynArray_split text sep = Normal d /\
    Forall (fun tok => occurrences sep tok = 0) (data d).
Proof.
  exists {| data := drop_trailing_empty (pieces sep text) |}.
  split; [apply dynArray_split_pieces|].
  apply drop_trailing_empty_Forall, pieces_no_sep_inside.
Qed.

(** X2. The text is recovered from the tokens: writing every token
    followed by the separator gives back the text when it is empty or ends
    with the separator, and the text with one separator added otherwise. *)
Theorem split_reassemble (text : string) (sep : ascii) :
  exists d,
    dynArray_split text sep = Normal d /\
    terminated sep (data d)
    = if closed_by sep text then text else text +:+ String sep "".
Proof.
  exists {| data := drop_trailing_empty (pieces sep text) |}.
  split; [apply dynArray_split_pieces|]. apply tokens_terminated.
Qed.

(** X3. Printing the container split on a space writes the text back,
    with one space added unless the text is empty or already ends with a
    space, and then the line terminator. *)
Theorem print_split_on_space (text cout : string) :
  (d ← dynArray_split text " "%char; print d cout)
  = Normal (cout +:+ text
            +:+ (if closed_by " "%char text then "" else " ")
            +:+ OStream.newline).
Proof.
  rewrite dynArray_split_pieces.
  change (Normal ?d ≫= ?k) with (k d). cbn beta.
  rewrite print_output, spaced_terminated. cbn [data].
  rewrite tokens_terminated.
  destruct (closed_by " "%char text); [done|].
  by rewrite !str_app_assoc.
Qed.

(** X4. Every list of tokens free of the separator is what the constructor
    stores for those tokens written each followed by the separator. *)
Theorem split_terminated (l : list string) (sep : ascii) :
  Forall (fun tok => occurrences sep tok = 0) l ->
  dynArray_split (terminated sep l) sep = Normal {| data := l |}.
Proof.
  intros Hl. rewrite dynArray_split_pieces. do 2 f_equal.
  assert (Hp : pieces sep (terminated sep l) = l ++ [""]).
  { induction Hl as [|t l Ht Hl IH]; [done|].
    cbn [terminated]. rewrite str_app_assoc.
    change (String sep "" +:+ terminated sep l)
      with (String sep (terminated sep l)).
    by rewrite pieces_app_sep, pieces_no_sep, IH. }
  rewrite Hp. apply drop_trailing_empty_snoc.
Qed.

Lemma split_terminated_witness :
  Forall (fun tok => occurrences ","%char tok = 0) ["a"; ""; "b c"] /\
  dynArray_split (terminated ","%char ["a"; ""; "b c"]) ","%char
  = Normal {| data := ["a"; ""; "b c"] |}.
Proof.
  assert (H : Forall (fun tok => occurrences ","%char tok = 0) ["a"; ""; "b c"]).
  { repeat constructor. }
  split; [exact H|].
  exact (split_terminated ["a"; ""; "b c"] ","%char H).
Defined.

(** X5. Splitting is compositional at a separator: when the text before it
    is not empty and does not end with the separator, the tokens of the
    whole are the tokens of the text before it followed by the tokens of
    the text after it. *)
Theorem split_compose (a b : string) (sep : ascii) :
  closed_by sep a = false ->
  exists da db,
    dynArray_split a sep = Normal da /\
    dynArray_split b sep = Normal db /\
    dynArray_split (a +:+ String sep b) sep
    = Normal {| data := data da ++ data db |}.
Proof.
  intros Ha.
  exists {| data := drop_trailing_empty (pieces sep a) |},
         {| data := drop_trailing_empty (pieces sep b) |}.
  rewrite !dynArray_split_pieces. split; [done|]. split; [done|].
  cbn [data]. do 2 f_equal.
  rewrite pieces_app_sep, drop_trailing_empty_app by apply pieces_not_nil.
  by rewrite (tokens_open sep a Ha).
Qed.

Lemma split_compose_witness :
  closed_by ","%char "one,two" = false /\
  exists da db,
    dynArray_split "one,two" ","%char = Normal da /\
    dynArray_split "and three" ","%char = Normal db /\
    dynArray_split ("one,two" +:+ String ","%char "and three") ","%char
    = Normal {| data := data da ++ data db |}.
Proof.
  split; [reflexivity|].
  apply (split_compose "one,two" "and three" ","%char). reflexivity.
Defined.

(** X6. A separator at the very start of the text gives an empty first
    token, followed by the tokens of the rest. *)
Theorem split_leading_separator (s : string) (sep : ascii) :
  exists ds,
    dynArray_split s sep = Normal ds /\
    dynArray_split (String sep s) sep = Normal {| data := "" :: data ds |}.
Proof.
  exists {| data := drop_trailing_empty (pieces sep s) |}.
  rewrite !dynArray_split_pieces. split; [done|]. cbn [data]. do 2 f_equal.
  change (String sep s) with ("" +:+ String sep s).
  rewrite pieces_app_sep. cbn [pieces].
  by rewrite drop_trailing_empty_app by apply pieces_not_nil.
Qed.

(** X7. Adding a token to a split container is splitting the longer text:
    for a text that is not empty and does not end with the separator, and a
    non-empty element free of the separator, the constructor on the text,
    a separator and the element gives what [add] gives on the container of
    the text. *)
Theorem split_then_add (text element : string) (sep : ascii) :
  closed_by sep text = false ->
  occurrences sep element = 0 ->
  element <> "" ->
  dynArray_split (text +:+ String sep element) sep
  = (d ← dynArray_split text sep; add d element).
Proof.
  intros Ht He Hne.
  rewrite !dynArray_split_pieces.
  change (Normal ?d ≫= ?k) with (k d). unfold add, Vector.push_back.
  cbn [data]. do 2 f_equal.
  rewrite pieces_app_sep, drop_trailing_empty_app by apply pieces_not_nil.
  rewrite (tokens_open sep text Ht). f_equal.
  rewrite pieces_no_sep by done. by destruct element.
Qed.

Lemma split_then_add_witness :
  closed_by " "%char "one two three" = false /\
  occurrences " "%char "four" = 0 /\
  "four" <> "" /\
  dynArray_split ("one two three" +:+ String " "%char "four") " "%char
  = (d ← dynArray_split "one two three" " "%char; add d "four").
Proof.
  split; [reflexivity|]. split; [reflexivity|]. split; [discriminate|].
  apply (split_then_add "one two three" "four" " "%char);
    [reflexivity|reflexivity|discriminate].
Defined.

(** X8. The constructor never stores more tokens than the text has
    characters. *)
Theorem token_count_at_most_length (text : string) (sep : ascii) :
  exists d n,
    dynArray_split text sep = Normal d /\
    size d = Normal n /\
    n <= String.length text.
Proof.
  exists {| data := drop_trailing_empty (pieces sep text) |},
         (length (drop_trailing_empty (pieces sep text))).
  split; [apply dynArray_split_pieces|]. split; [done|].
  rewrite drop_trailing_empty_length by apply pieces_not_nil.
  rewrite pieces_length.
  pose proof (occurrences_le_length sep text) as Hle.
  case_decide as Hl; [lia|].
  assert (closed_by sep text = false) as Hopen.
  { destruct (closed_by sep text) eqn:Hc; [|done].
    apply last_pieces in Hc. done. }
  apply occurrences_open in Hopen. lia.
Qed.

(** X9. The loop of the constructor calls [getline] exactly once more than
    it stores tokens: given more iterations than there are tokens it ends
    with the container, given no more than that it has not ended. *)
Theorem split_loop_iterations (str : string) (sep : ascii) :
  exists d n,
    dynArray_split str sep = Normal d /\
    size d = Normal n /\
    forall fuel,
      dynArray_split_fuel fuel str sep
      = if decide (n < fuel) then Normal d else OutOfFuel.
Proof.
  exists {| data := drop_trailing_empty (pieces sep str) |},
         (length (drop_trailing_empty (pieces sep str))).
  split; [apply dynArray_split_pieces|]. split; [done|].
  intros fuel. unfold dynArray_split_fuel. rewrite split_loop_exact.
  case_decide; done.
Qed.

(** X10. [add] is undone by a [resize] to the earlier length. *)
Theorem add_resize_back `{Implementation} (d : dynArray) (element : string)
    (n : nat) :
  size d = Normal n ->
  (d1 ← add d element; resize d1 n) = Normal d.
Proof.
  intros [= <-]. destruct d as [v].
  unfold add, resize, Vector.push_back, Vector.size. cbn [data].
  change (Normal ?x ≫= ?k) with (k x). cbn [data].
  rewrite resize_returns by (rewrite length_app; lia).
  change (Normal ?x ≫= ?k) with (k x). cbn beta. do 2 f_equal.
  unfold resized. rewrite take_app_length, length_app.
  replace (length v - (length v + length [element])) with 0 by lia.
  apply app_nil_r.
Qed.

Lemma add_resize_back_witness :
  size one_two = Normal 2 /\
  (d1 ← add one_two "three"; resize (H := libstdcxx_lp64) d1 2)
  = Normal one_two.
Proof.
  split; [reflexivity|].
  apply (add_resize_back (H := libstdcxx_lp64) one_two "three" 2). reflexivity.
Defined.





(** X13. [print] does not show where tokens end: a container with a token
    that holds a space prints like the container with the two tokens on
    either side of that space in its place. *)
Theorem print_token_boundaries (l1 l2 : list string) (t1 t2 cout : string) :
  print {| data := l1 ++ (t1 +:+ " " +:+ t2) :: l2 |} cout
  = print {| data := l1 ++ t1 :: t2 :: l2 |} cout.
Proof.
  rewrite !print_output. cbn [data]. do 3 f_equal.
  rewrite !spaced_app. f_equal. cbn [spaced].
  by rewrite !str_app_assoc.
Qed.

(** X14. [print] adds to the stream as many characters as the tokens have
    together, one more per token, and one for the line terminator. *)
Theorem print_length (d : dynArray) (cout : string) :
  exists out n,
    print d cout = Normal out /\
    size d = Normal n /\
    String.length out = String.length cout + total_length (data d) + n + 1.
Proof.
  exists (cout +:+ spaced (data d) +:+ OStream.newline), (length (data d)).
  split; [apply print_output|]. split; [done|].
  rewrite !str_app_length, spaced_terminated, terminated_length.
  simpl. lia.
Qed.

(** X15. Of two assignments to the same index the later one counts: they
    leave what the later one alone leaves, and out of range both ways
    throw. *)
Theorem operator_index_assign_twice (d : dynArray) (i : nat) (v w : string) :
  (d1 ← operator_index_assign d i v; operator_index_assign d1 i w)
  = operator_index_assign d i w.
Proof.
  unfold operator_index_assign. rewrite at_lookup.
  destruct (data d !! i) as [tok|] eqn:Hi; [|done].
  change (Normal ?x ≫= ?k) with (k x). cbn [data].
  change (Normal ?x ≫= ?k) with (k x). cbn [data].
  rewrite at_lookup.
  rewrite list_lookup_insert_eq by (by apply lookup_lt_Some in Hi).
  change (Normal ?x ≫= ?k) with (k x). cbn [data].
  by rewrite list_insert_insert_eq.
Qed.

(** X16. Assigning to a position the token read from it changes nothing:
    in range the container is as before, out of range the read throws. *)
Theorem operator_index_assign_read (d : dynArray) (i : nat) :
  (tok ← operator_index d i; operator_index_assign d i tok)
  = (_ ← operator_index d i; Normal d).
Proof.
  unfold operator_index, operator_index_assign. rewrite at_lookup.
  destruct (data d !! i) as [tok|] eqn:Hi; [|done].
  change (Normal ?x ≫= ?k) with (k x). cbn [data].
  change (Normal ?x ≫= ?k) with (k x). cbn beta.
  rewrite list_insert_id by done. by destruct d.
Qed.

(** X17. An empty container has no valid index: on the default
    constructed container, on the container split from the empty string and
    after [resize(0)], the access throws [out_of_range] at every index. *)
Theorem empty_container_access `{Implementation} (d : dynArray) (sep : ascii)
    (i : nat) :
  (d0 ← dynArray_default; operator_index d0 i) = Throw out_of_range /\
  (d0 ← dynArray_split "" sep; operator_index d0 i) = Throw out_of_range /\
  (d0 ← resize d 0; operator_index d0 i) = Throw out_of_range.
Proof.
  split; [|split].
  - reflexivity.
  - reflexivity.
  - unfold resize, operator_index.
    rewrite resize_returns by (right; lia).
    change (Normal ?x ≫= ?k) with (k x). cbn beta.
    change (Normal ?x ≫= ?k) with (k x). cbn beta. cbn [data].
    apply at_out_of_range. rewrite resized_length. lia.
Qed.


(** X18. Two texts that end alike, both or neither empty or ending with
    the separator, are split into the same container only when they are
    the same text. *)
Theorem split_injective (a b : string) (sep : ascii) :
  closed_by sep a = closed_by sep b ->
  dynArray_split a sep = dynArray_split b sep ->
  a = b.
Proof.
  intros Hc Hab.
  rewrite !dynArray_split_pieces in Hab. injection Hab as Hab.
  pose proof (tokens_terminated sep a) as Hta.
  pose proof (tokens_terminated sep b) as Htb.
  rewrite Hab, Htb, <- Hc in Hta.
  destruct (closed_by sep a); [done|].
  by apply str_snoc_inj in Hta.
Qed.

Lemma split_injective_witness :
  closed_by ","%char "a,b" = closed_by ","%char "a,b" /\
  dynArray_split "a,b" ","%char = dynArray_split "a,b" ","%char /\
  "a,b" = "a,b".
Proof.
  split; [reflexivity|]. split; [reflexivity|].
  apply (split_injective "a,b" "a,b" ","%char); reflexivity.
Defined.

(** X19. After [add] the output of [print] is the earlier output with the
    element and a space put before the line terminator. *)
Theorem print_after_add (d : dynArray) (element cout : string) :
  exists body,
    print d cout = Normal (body +:+ OStream.newline) /\
    (d1 ← add d element; print d1 cout)
    = Normal (body +:+ element +:+ " " +:+ OStream.newline).
Proof.
  exists (cout +:+ spaced (data d)).
  rewrite print_output. split; [by rewrite str_app_assoc|].
  unfold add, Vector.push_back.
  change (Normal ?x ≫= ?k) with (k x). cbn beta.
  rewrite print_output. cbn [data].
  rewrite spaced_app. cbn [spaced].
  by rewrite !str_app_assoc.
Qed.




